(** * tracerr: errors with a stack trace

    A shallow embedding of [error.go] (package [tracerr]) and the
    properties of its construction, unwrapping and formatting protocol.

    Modelling decisions, all read off the source:

    - A Go [error] is an interface value: [nil], or a value of some dynamic
      type.  The only thing the package ever asks of a dynamic type is
      whether it implements the interface [Error] (the type assertion
      [err.(Error)]) and what its methods return.
    - [*errorData] is the package's own implementation of [Error].  The
      struct is unexported and none of its fields is assigned after the
      composite literal that builds it, so a pointer is modelled by the
      struct it points to; the address itself is left out.
    - [int] is a 64-bit two's-complement integer, modelled in [Z] with the
      wrap-around of [skip++] written out.
    - A slice is its element sequence together with its capacity, so that
      the effect of [DefaultCap] on the value built by [trace] stays
      visible.
    - [runtime.Caller], [runtime.FuncForPC] and the growth policy of
      [append] belong to the Go runtime; they are fields of a [Runtime]
      record that [trace] reads.  [fmt.Sprintf] is a section variable.
    - The package never builds a nil [*errorData] and no importing package
      can name the type, so a nil pointer of that type is not a value of
      the model.  The methods of the types of other packages are taken to
      return.
    - A call that does not return is an outcome of its own, [Panic]: a
      run-time panic, or the fatal error with which the runtime ends the
      process when the allocator has no memory left.  Running out of fuel
      in the one unbounded loop of the package ([trace]) is another.
    - [make] has the checks of the runtime's [makeslice] on a [[]Frame] of
      a 64-bit platform (40 bytes an element): a negative capacity, a size
      that overflows [uintptr] or exceeds the allocator's limit [maxAlloc],
      and memory the allocator cannot find.  Its size is the caller's to
      choose, through [DefaultCap].  The allocations whose size follows the
      data at hand (the frames appended, the strings built, the struct) are
      taken to succeed. *)

From Stdlib Require Import ZArith String Ascii List Lia Bool DecimalString.
Import ListNotations.

Local Open Scope string_scope.
Local Open Scope Z_scope.

(** ** Outcomes of a Go call *)

Inductive outcome (A : Type) : Type :=
| Ok (a : A)
| Panic (reason : string)
| OutOfFuel.

Arguments Ok {A} a.
Arguments Panic {A} reason.
Arguments OutOfFuel {A}.

Definition bind {A B : Type} (m : outcome A) (k : A -> outcome B) : outcome B :=
  match m with
  | Ok a => k a
  | Panic r => Panic r
  | OutOfFuel => OutOfFuel
  end.

Definition fmap {A B : Type} (f : A -> B) (m : outcome A) : outcome B :=
  bind m (fun a => Ok (f a)).

Notation "x <- m ;; k" := (bind m (fun x => k))
  (at level 61, m at next level, right associativity).

Definition returns {A : Type} (m : outcome A) : bool :=
  match m with Ok _ => true | _ => false end.

(** The two run-time panics the package can reach, and the fatal error of
    the allocator. *)
Definition nil_dereference : string :=
  "runtime error: invalid memory address or nil pointer dereference".
Definition makeslice_cap : string :=
  "runtime error: makeslice: cap out of range".
Definition out_of_memory : string :=
  "fatal error: runtime: out of memory".

(** ** Machine integers *)

Definition int_min : Z := - 2 ^ 63.
Definition int_max : Z := 2 ^ 63 - 1.

(** Reduction of a mathematical integer to Go's 64-bit [int]. *)
Definition int_wrap (z : Z) : Z := (z + 2 ^ 63) mod 2 ^ 64 - 2 ^ 63.

(** [skip++] *)
Definition int_incr (z : Z) : Z := int_wrap (z + 1).

(** The verb [%d] of package [fmt] on an [int]. *)
Definition format_int (z : Z) : string := NilZero.string_of_int (Z.to_int z).

(** The one-character strings ["\n"] and ["\t"] of the source. *)
Definition newline : string := String (ascii_of_nat 10) EmptyString.
Definition tab : string := String (ascii_of_nat 9) EmptyString.

(** ** Frames and slices of frames *)

(** [type Frame struct { Func string; Line int; Path string }] *)
Record Frame : Type := {
  Func : string;
  Line : Z;
  Path : string
}.

(** [[]Frame]: the elements in order and the capacity of the backing array.
    The nil slice has no elements and capacity 0. *)
Record slice : Type := {
  elems : list Frame;
  capacity : Z
}.

Definition nil_slice : slice := {| elems := []; capacity := 0 |}.

Definition len (s : slice) : Z := Z.of_nat (length (elems s)).

(** The size of a [Frame] in bytes where [int] has 64 bits: two string
    headers of two words and one word. *)
Definition Frame_size : Z := 40.

(** ** The Go runtime as [trace] sees it *)

(** The four results of [runtime.Caller(skip)]. *)
Record CallerResult : Type := {
  pc : Z;
  file : string;
  line : Z;
  ok : bool
}.

Record Runtime : Type := {
  (** [runtime.Caller], asked from inside [trace]: depth 0 is [trace]
      itself, depth 1 the exported function that called it. *)
  Caller : Z -> CallerResult;
  (** [runtime.FuncForPC], by the name of the [*Func] it returns; [None]
      is the nil [*Func]. *)
  FuncForPC : Z -> option string;
  (** The capacity [append] gives the new backing array of a full slice,
      from the old capacity. *)
  growslice : Z -> Z;
  (** The allocator's limit on the size of one allocation, in bytes. *)
  maxAlloc : Z;
  (** Whether the allocator finds the memory for an allocation of that many
      bytes. *)
  mallocgc : Z -> bool
}.

(** [make([]Frame, 0, c)] for an [int] [c], through the runtime's
    [makeslice]: a run-time panic when the length exceeds the capacity
    (a negative [c]), when the size in bytes overflows [uintptr] or exceeds
    [maxAlloc]; the fatal error of the allocator when the memory is not
    there. *)
Definition make (rt : Runtime) (c : Z) : outcome slice :=
  if c <? 0 then Panic makeslice_cap
  else
    let mem := Frame_size * c in
    if (2 ^ 64 <=? mem) || (maxAlloc rt <? mem) then Panic makeslice_cap
    else if negb (mallocgc rt mem) then Panic out_of_memory
    else Ok {| elems := []; capacity := c |}.

(** The method [Name] of [*runtime.Func]; it answers the empty string on a
    nil receiver. *)
Definition Name (fn : option string) : string :=
  match fn with
  | Some n => n
  | None => ""
  end.

(** [append(s, f)] *)
Definition append (rt : Runtime) (s : slice) (f : Frame) : slice :=
  {| elems := (elems s ++ [f])%list;
     capacity := if len s <? capacity s then capacity s
                 else growslice rt (capacity s) |}.

(** ** Errors *)

(** [type errorData struct { err error; message string; frames []Frame }],
    over the type of the values an [error] can hold. *)
Record errorDataOf (E : Type) : Type := {
  err : E;
  message : string;
  frames : slice
}.

Scheme All for errorDataOf.

Arguments err {E} e.
Arguments message {E} e.
Arguments frames {E} e.

(** The values of the interface type [error] (and of [Error], which the
    same dynamic values inhabit). *)
Inductive error : Type :=
| nil
    (** the nil interface value *)
| Foreign (text : string)
    (** a value of a type of another package that has [Error() string]
        only, such as what [fmt.Errorf] returns; [text] is what its
        [Error] method returns *)
| ForeignTraced (text : string) (trace : slice) (original : error)
    (** a value of a type of another package that has all three methods of
        [Error]; the arguments are what [Error], [StackTrace] and [Unwrap]
        return *)
| Ptr (d : errorDataOf error)
    (** a [*errorData] *).

Definition errorData : Type := errorDataOf error.

(** The type assertion [err.(Error)]: its [ok] result.  The value result is
    [err] itself, seen at the interface type [Error]. *)
Definition implements_Error (e : error) : bool :=
  match e with
  | nil => false
  | Foreign _ => false
  | ForeignTraced _ _ _ => true
  | Ptr _ => true
  end.

Definition is_nil (e : error) : bool :=
  match e with
  | nil => true
  | _ => false
  end.

(** ** The package *)

(** [func CustomError(err error, frames []Frame) Error]: the composite
    literal leaves [message] at its zero value. *)
Definition CustomError (e : error) (fs : slice) : error :=
  Ptr {| err := e; message := ""; frames := fs |}.

(** [func (f Frame) String() string], with the format
    ["%s:%d %s()"] applied to [f.Path], [f.Line] and [f.Func]. *)
Definition Frame_String (f : Frame) : string :=
  Path f ++ ":" ++ format_int (Line f) ++ " " ++ Func f ++ "()".

(** [func (e *errorData) StackTrace() []Frame] *)
Definition errorData_StackTrace (e : errorData) : slice := frames e.

(** [func (e *errorData) Unwrap() error] *)
Definition errorData_Unwrap (e : errorData) : error := err e.

(** The state of the loop over the frames in the method [Error] of
    [*errorData]: the
    builder's contents and [isFirstFrame]. *)
Definition write_frame (st : string * bool) (frame : Frame) : string * bool :=
  let (builder, isFirstFrame) := st in
  let builder := if negb isFirstFrame then builder ++ newline else builder in
  (builder ++ tab ++ Frame_String frame, false).

Section ErrorMethod.

(** The dynamic call [e.err.Error()]. *)
Variable dyn_Error : error -> outcome string.

(** The body of [func (e *errorData) Error() string]. *)
Definition errorData_Error_body (e : errorData) : outcome string :=
  let builder := "" in
  let builder :=
    if negb (String.eqb (message e) "") then (builder ++ message e) ++ newline
    else builder in
  text <- dyn_Error (err e) ;;
  let builder := builder ++ text in
  let builder := builder ++ newline in
  let isFirstFrame := true in
  Ok (fst (fold_left write_frame (elems (errorData_StackTrace e))
                     (builder, isFirstFrame))).

End ErrorMethod.

(** The method [Error] of an [error], by its dynamic type.  On the nil
    interface value the call is a nil dereference. *)
Fixpoint error_Error (e : error) : outcome string :=
  match e with
  | nil => Panic nil_dereference
  | Foreign text => Ok text
  | ForeignTraced text _ _ => Ok text
  | Ptr d => errorData_Error_body error_Error d
  end.

(** [func (e *errorData) Error() string] *)
Definition errorData_Error (e : errorData) : outcome string :=
  errorData_Error_body error_Error e.

(** The methods [StackTrace] and [Unwrap] of a value that implements
    [Error], by its dynamic type. *)
Definition Error_StackTrace (e : error) : slice :=
  match e with
  | Ptr d => errorData_StackTrace d
  | ForeignTraced _ st _ => st
  | _ => nil_slice
  end.

Definition Error_Unwrap (e : error) : error :=
  match e with
  | Ptr d => errorData_Unwrap d
  | ForeignTraced _ _ o => o
  | _ => nil
  end.

(** [func StackTrace(err error) []Frame] *)
Definition StackTrace (e : error) : slice :=
  if negb (implements_Error e) then nil_slice
  else Error_StackTrace e.

(** [func Unwrap(err error) error] *)
Definition Unwrap (e : error) : error :=
  if is_nil e then nil
  else if negb (implements_Error e) then e
  else Error_Unwrap e.

(** The loop of [trace]: one iteration per unit of fuel. *)
Fixpoint trace_loop (fuel : nat) (rt : Runtime) (frames : slice) (skip : Z)
  : outcome slice :=
  match fuel with
  | O => OutOfFuel
  | S fuel =>
      let r := Caller rt skip in
      if negb (ok r) then Ok frames
      else
        let fn := FuncForPC rt (pc r) in
        let frame := {| Func := Name fn; Line := line r; Path := file r |} in
        let frames := append rt frames frame in
        trace_loop fuel rt frames (int_incr skip)
  end.

(** What [trace] computes for the field [frames]: the stack capture. *)
Definition capture (fuel : nat) (rt : Runtime) (DefaultCap : Z) (skip : Z)
  : outcome slice :=
  frames <- make rt DefaultCap ;;
  trace_loop fuel rt frames skip.

(** [func trace(err error, message string, skip int) Error], reading the
    package variable [DefaultCap]. *)
Definition trace (fuel : nat) (rt : Runtime) (DefaultCap : Z)
    (e : error) (msg : string) (skip : Z) : outcome error :=
  frames <- capture fuel rt DefaultCap skip ;;
  Ok (Ptr {| err := e; message := msg; frames := frames |}).

(** [func Wrap(err error, message string) Error] *)
Definition Wrap (fuel : nat) (rt : Runtime) (DefaultCap : Z)
    (e : error) (msg : string) : outcome error :=
  if is_nil e then Ok nil
  else if implements_Error e then Ok e
  else trace fuel rt DefaultCap e msg 2.

Section Fmt.

(** The operands of a format and [fmt.Sprintf]. *)
Variable any : Type.
Variable Sprintf : string -> list any -> string.

(** [fmt.Errorf]: a non-nil error of a type of package [fmt] or [errors],
    none of which has a [StackTrace] method; its text is the formatted
    message. *)
Definition fmt_Errorf (format : string) (a : list any) : error :=
  Foreign (Sprintf format a).

(** [func Errorf(message string, args ...interface{}) Error] *)
Definition Errorf (fuel : nat) (rt : Runtime) (DefaultCap : Z)
    (msg : string) (args : list any) : outcome error :=
  trace fuel rt DefaultCap (fmt_Errorf msg args) "" 2.

(** [func New(message string) Error] *)
Definition New (fuel : nat) (rt : Runtime) (DefaultCap : Z)
    (msg : string) : outcome error :=
  trace fuel rt DefaultCap (fmt_Errorf msg []) "" 2.

(** [func Newf(format string, a ...interface{}) Error] *)
Definition Newf (fuel : nat) (rt : Runtime) (DefaultCap : Z)
    (format : string) (a : list any) : outcome error :=
  trace fuel rt DefaultCap (fmt_Errorf format a) "" 2.

(** [func Wrapf(err error, format string, a ...interface{}) Error] *)
Definition Wrapf (fuel : nat) (rt : Runtime) (DefaultCap : Z)
    (e : error) (format : string) (a : list any) : outcome error :=
  Wrap fuel rt DefaultCap e (Sprintf format a).

End Fmt.

(** ** Reading the stack collaborator *)

(** The frame [trace] builds from the answer at depth [d]. *)
Definition frame_at (rt : Runtime) (d : Z) : Frame :=
  {| Func := Name (FuncForPC rt (pc (Caller rt d)));
     Line := line (Caller rt d);
     Path := file (Caller rt d) |}.

(** The frames the collaborator resolves at depths [skip], [skip + 1], ...,
    at most [n] of them, up to the first depth it does not resolve. *)
Fixpoint stack_frames (rt : Runtime) (n : nat) (skip : Z) : list Frame :=
  match n with
  | O => []
  | S n =>
      if ok (Caller rt skip) then frame_at rt skip :: stack_frames rt n (skip + 1)
      else []
  end.

(** The collaborator reports no entry at depth [d], a depth an [int] can
    hold and that lies at or above [skip]. *)
Definition stack_ends (rt : Runtime) (skip d : Z) : bool :=
  (int_min <=? skip) && (skip <=? d) && (d <=? int_max)
  && negb (ok (Caller rt d)).

(** The allocator serves [make] for the capacity [c]: the size in bytes
    fits [uintptr], is within [maxAlloc], and the memory is there. *)
Definition allocatable (rt : Runtime) (c : Z) : bool :=
  (Frame_size * c <? 2 ^ 64) && (Frame_size * c <=? maxAlloc rt)
  && mallocgc rt (Frame_size * c).

(** The frame sequence of an error, as [StackTrace] exposes it. *)
Definition frame_sequence (e : error) : list Frame := elems (StackTrace e).

(** An error whose [Error] method has a text to give: following the
    originals of the package's own values ends in a non-nil error. *)
Fixpoint has_text (e : error) : bool :=
  match e with
  | nil => false
  | Foreign _ => true
  | ForeignTraced _ _ _ => true
  | Ptr d => has_text (err d)
  end.

(** How many values of the package are nested at the top of an error. *)
Fixpoint nesting (e : error) : nat :=
  match e with
  | Ptr d => S (nesting (err d))
  | _ => O
  end.

(** ** The rendering, in the words of the specification *)

(** ["<path>:<line> <function>()"] *)
Definition frame_render_spec (f : Frame) : string :=
  Path f ++ ":" ++ format_int (Line f) ++ " " ++ Func f ++ "()".

(** The message and a line break if the message is non-empty; the text of
    the original and a line break; the frames, each after a tab, with a
    line break between two consecutive ones. *)
Definition render_spec (msg text : string) (fs : list Frame) : string :=
  (if String.eqb msg "" then "" else msg ++ newline)
  ++ text ++ newline
  ++ String.concat newline (map (fun f => tab ++ frame_render_spec f) fs).

(** ** Examples to run the definitions on *)

(** A stack of three callers above [trace] and the exported function. *)
Definition example_runtime : Runtime :=
  {| Caller := fun d =>
       if (0 <=? d) && (d <? 5)
       then {| pc := 4096 + d; file := "/a.go"; line := 10 * d; ok := true |}
       else {| pc := 0; file := ""; line := 0; ok := false |};
     FuncForPC := fun p => if p =? 4099 then None else Some "main.f";
     growslice := fun c => 2 * c + 1;
     maxAlloc := 2 ^ 48;
     mallocgc := fun mem => mem <=? 2 ^ 30 |}.

(** A context in which the collaborator resolves nothing. *)
Definition empty_runtime : Runtime :=
  {| Caller := fun _ => {| pc := 0; file := ""; line := 0; ok := false |};
     FuncForPC := fun _ => None;
     growslice := fun c => 2 * c + 1;
     maxAlloc := 2 ^ 48;
     mallocgc := fun mem => mem <=? 2 ^ 30 |}.

Definition example_frames : list Frame :=
  [ {| Func := "main.f"; Line := 10; Path := "/a.go" |};
    {| Func := "main.g"; Line := 20; Path := "/a.go" |} ].

Definition example_traced : errorData :=
  {| err := Foreign "boom"; message := "ctx";
     frames := {| elems := example_frames; capacity := 2 |} |}.

(** A [Sprintf] for formats without verbs. *)
Definition plain_Sprintf (format : string) (_ : list string) : string := format.

(** ** The exported readers, with their method calls as calls *)

(** The calls [e.Unwrap()] and [e.StackTrace()] on an interface value: a
    nil dereference on the nil interface value.  A value without the method
    cannot be the receiver; that case is closed as a failure too. *)
Definition call_Unwrap (e : error) : outcome error :=
  match e with
  | Ptr d => Ok (errorData_Unwrap d)
  | ForeignTraced _ _ o => Ok o
  | _ => Panic nil_dereference
  end.

Definition call_StackTrace (e : error) : outcome slice :=
  match e with
  | Ptr d => Ok (errorData_StackTrace d)
  | ForeignTraced _ st _ => Ok st
  | _ => Panic nil_dereference
  end.

(** [func Unwrap(err error) error], statement by statement. *)
Definition Unwrap_run (e : error) : outcome error :=
  if is_nil e then Ok nil
  else if negb (implements_Error e) then Ok e
  else call_Unwrap e.

(** [func StackTrace(err error) []Frame], statement by statement. *)
Definition StackTrace_run (e : error) : outcome slice :=
  if negb (implements_Error e) then Ok nil_slice
  else call_StackTrace e.

(** ** Views of the runtime *)

(** The same runtime with another growth policy for [append]. *)
Definition with_growslice (g : Z -> Z) (rt : Runtime) : Runtime :=
  {| Caller := Caller rt; FuncForPC := FuncForPC rt; growslice := g;
     maxAlloc := maxAlloc rt; mallocgc := mallocgc rt |}.

(** The stack as the callee of a call sees it: its own entry at depth 0,
    and every entry the caller saw one deeper. *)
Definition push_frame (callee : CallerResult) (rt : Runtime) : Runtime :=
  {| Caller := fun d => if d =? 0 then callee else Caller rt (d - 1);
     FuncForPC := FuncForPC rt;
     growslice := growslice rt;
     maxAlloc := maxAlloc rt;
     mallocgc := mallocgc rt |}.

(** The frame [trace] builds from one answer of [runtime.Caller]. *)
Definition frame_of (rt : Runtime) (r : CallerResult) : Frame :=
  {| Func := Name (FuncForPC rt (pc r)); Line := line r; Path := file r |}.

(** The depths [skip], [skip + 1], ..., [skip + n - 1]. *)
Definition depths (skip : Z) (n : nat) : list Z :=
  map (fun i => skip + Z.of_nat i) (seq 0 n).

(** How many values that implement [Error] are nested at the top of an
    error, those of other packages included. *)
Fixpoint layers (e : error) : nat :=
  match e with
  | nil => O
  | Foreign _ => O
  | ForeignTraced _ _ o => S (layers o)
  | Ptr d => S (layers (err d))
  end.

(** ** Lemmas on integers, strings and outcomes *)

Lemma int_incr_no_wrap (z : Z) :
  int_min <= z < int_max -> int_incr z = z + 1.
Proof.
  unfold int_incr, int_wrap, int_min, int_max. intros H.
  rewrite Z.mod_small; lia.
Qed.

Lemma append_empty_r (s : string) : s ++ "" = s.
Proof.
  induction s as [|c s IH]; simpl; [reflexivity | now rewrite IH].
Qed.

Lemma append_assoc (s1 s2 s3 : string) : (s1 ++ s2) ++ s3 = s1 ++ (s2 ++ s3).
Proof.
  induction s1 as [|c s1 IH]; simpl; [reflexivity | now rewrite IH].
Qed.

Lemma returns_Ok {A : Type} (m : outcome A) :
  returns m = true <-> exists a, m = Ok a.
Proof.
  destruct m; simpl; split; intros H; try discriminate; eauto;
    destruct H as [a H]; discriminate.
Qed.

Lemma is_nil_false (e : error) : is_nil e = false <-> e <> nil.
Proof.
  destruct e; simpl; split; intros H; congruence.
Qed.

(** ** The formatting loop *)

Lemma Frame_String_spec (f : Frame) : Frame_String f = frame_render_spec f.
Proof. reflexivity. Qed.

(** After the first frame the loop writes a line break before each frame. *)
Lemma write_frames_after_first (fs : list Frame) :
  forall (b : string) (f0 : Frame),
    fst (fold_left write_frame fs (b ++ tab ++ Frame_String f0, false))
    = b ++ String.concat newline
             (map (fun f => tab ++ frame_render_spec f) (f0 :: fs)).
Proof.
  induction fs as [|f1 fs IH]; intros b f0.
  - reflexivity.
  - cbn [fold_left write_frame negb].
    rewrite (IH ((b ++ tab ++ Frame_String f0) ++ newline) f1).
    cbn [map String.concat].
    rewrite !append_assoc. reflexivity.
Qed.

Lemma write_frames_spec (fs : list Frame) (b : string) :
  fst (fold_left write_frame fs (b, true))
  = b ++ String.concat newline (map (fun f => tab ++ frame_render_spec f) fs).
Proof.
  destruct fs as [|f0 fs].
  - simpl. now rewrite append_empty_r.
  - cbn [fold_left write_frame negb]. apply write_frames_after_first.
Qed.

Lemma errorData_Error_unfold (d : errorData) :
  error_Error (Ptr d) = errorData_Error d.
Proof. reflexivity. Qed.

Lemma errorData_Error_text (d : errorData) (text : string) :
  error_Error (err d) = Ok text ->
  errorData_Error d = Ok (render_spec (message d) text (elems (frames d))).
Proof.
  intros H. unfold errorData_Error, errorData_Error_body, errorData_StackTrace.
  rewrite H. cbn [bind]. rewrite write_frames_spec. unfold render_spec.
  destruct (String.eqb (message d) ""); cbn [negb];
    rewrite ?append_assoc; reflexivity.
Qed.

(** Induction on an error along the originals it stores. *)
Lemma error_induction (P : error -> Prop) :
  P nil ->
  (forall text, P (Foreign text)) ->
  (forall text st o, P o -> P (ForeignTraced text st o)) ->
  (forall d : errorData, P (err d) -> P (Ptr d)) ->
  forall e, P e.
Proof.
  intros Hnil Hforeign Htraced Hptr.
  fix IH 1. intros [| text | text st o | d].
  - exact Hnil.
  - apply Hforeign.
  - apply Htraced, IH.
  - apply Hptr. destruct d as [o m fs]. apply IH.
Qed.

Lemma error_Error_returns (e : error) : returns (error_Error e) = has_text e.
Proof.
  induction e as [| text | text st o _ | d IH] using error_induction;
    try reflexivity.
  rewrite errorData_Error_unfold. cbn [has_text]. rewrite <- IH.
  destruct (error_Error (err d)) as [text | r |] eqn:E.
  - now rewrite (errorData_Error_text d text E).
  - unfold errorData_Error, errorData_Error_body. now rewrite E.
  - unfold errorData_Error, errorData_Error_body. now rewrite E.
Qed.

(** Where the chain of stored originals ends in nil, [Error] ends in the
    nil dereference, at whatever depth the nil lies. *)
Lemma error_Error_no_text (e : error) :
  has_text e = false -> error_Error e = Panic nil_dereference.
Proof.
  induction e as [| text | text st o _ | d IH] using error_induction;
    cbn [has_text]; intros H; try discriminate H.
  - reflexivity.
  - rewrite errorData_Error_unfold.
    unfold errorData_Error, errorData_Error_body. now rewrite (IH H).
Qed.

Lemma error_Error_has_text (e : error) :
  has_text e = true -> exists text, error_Error e = Ok text.
Proof.
  intros H. apply returns_Ok. now rewrite error_Error_returns.
Qed.

Lemma nesting_CustomError (o : error) (fs : slice) : CustomError o fs <> o.
Proof.
  intros H. apply (f_equal nesting) in H. cbn in H. lia.
Qed.

(** ** The capture loop *)

(** With fuel for every depth below the one where the collaborator stops,
    the loop returns, and it has appended the frames the collaborator
    resolved from [skip] on. *)
Lemma trace_loop_returns (rt : Runtime) (n : nat) :
  forall (fuel : nat) (s : slice) (skip d : Z),
    stack_ends rt skip d = true ->
    n = Z.to_nat (d - skip) ->
    (n < fuel)%nat ->
    exists s', trace_loop fuel rt s skip = Ok s'
               /\ elems s' = (elems s ++ stack_frames rt n skip)%list.
Proof.
  induction n as [|n IH]; intros fuel s skip d Hend Hn Hfuel;
    destruct fuel as [|fuel]; try lia;
    unfold stack_ends in Hend;
    apply andb_prop in Hend as [Hend Hok];
    apply andb_prop in Hend as [Hend Hmax];
    apply andb_prop in Hend as [Hmin Hle];
    apply Z.leb_le in Hmin, Hle, Hmax.
  - assert (skip = d) by lia. subst d.
    cbn [trace_loop stack_frames]. rewrite Hok.
    exists s. now rewrite app_nil_r.
  - cbn [trace_loop stack_frames].
    destruct (ok (Caller rt skip)) eqn:E; cbn [negb].
    + rewrite int_incr_no_wrap by (unfold int_max in *; lia).
      destruct (IH fuel (append rt s (frame_at rt skip)) (skip + 1) d)
        as [s' [Hs' He]].
      * unfold stack_ends. rewrite Hok.
        repeat (apply andb_true_intro; split); try reflexivity;
          apply Z.leb_le; lia.
      * lia.
      * lia.
      * exists s'. split; [exact Hs' |].
        rewrite He. cbn [append elems]. now rewrite <- app_assoc.
    + exists s. now rewrite app_nil_r.
Qed.

(** The elements the loop returns do not depend on the capacity it
    started from. *)
Lemma trace_loop_capacity (rt : Runtime) (fuel : nat) :
  forall (s1 s2 : slice) (skip : Z),
    elems s1 = elems s2 ->
    fmap elems (trace_loop fuel rt s1 skip)
    = fmap elems (trace_loop fuel rt s2 skip).
Proof.
  induction fuel as [|fuel IH]; intros s1 s2 skip H; cbn [trace_loop].
  - reflexivity.
  - destruct (ok (Caller rt skip)); cbn [negb].
    + apply IH. cbn [append elems]. now rewrite H.
    + cbn. now rewrite H.
Qed.

Lemma stack_frames_length (rt : Runtime) (n : nat) :
  forall skip, (length (stack_frames rt n skip) <= n)%nat.
Proof.
  induction n as [|n IH]; intros skip; cbn [stack_frames].
  - simpl. lia.
  - destruct (ok (Caller rt skip)); simpl; [specialize (IH (skip + 1))|]; lia.
Qed.

Lemma stack_frames_unresolved (rt : Runtime) (n : nat) (skip : Z) :
  ok (Caller rt skip) = false -> stack_frames rt n skip = [].
Proof.
  intros H. destruct n; cbn [stack_frames]; [reflexivity | now rewrite H].
Qed.

(** [make] returns exactly on the capacities that are not negative and
    that the allocator serves. *)
Lemma make_granted (rt : Runtime) (c : Z) :
  0 <= c -> allocatable rt c = true ->
  make rt c = Ok {| elems := []; capacity := c |}.
Proof.
  unfold allocatable, make. intros Hc Ha.
  apply andb_prop in Ha as [Ha Hm]. apply andb_prop in Ha as [Ho Hl].
  apply Z.ltb_lt in Ho. apply Z.leb_le in Hl.
  destruct (Z.ltb_spec c 0) as [?|_]; [lia |].
  destruct (Z.leb_spec (2 ^ 64) (Frame_size * c)) as [?|_]; [lia |].
  destruct (Z.ltb_spec (maxAlloc rt) (Frame_size * c)) as [?|_]; [lia |].
  cbn [orb]. now rewrite Hm.
Qed.

Lemma make_returns (rt : Runtime) (c : Z) :
  returns (make rt c) = (0 <=? c) && allocatable rt c.
Proof.
  unfold allocatable, make.
  destruct (Z.ltb_spec c 0) as [?|?];
    destruct (Z.leb_spec 0 c) as [?|?]; try lia; [reflexivity |].
  destruct (Z.leb_spec (2 ^ 64) (Frame_size * c)) as [?|?];
    destruct (Z.ltb_spec (Frame_size * c) (2 ^ 64)) as [?|?]; try lia;
    [reflexivity |].
  destruct (Z.ltb_spec (maxAlloc rt) (Frame_size * c)) as [?|?];
    destruct (Z.leb_spec (Frame_size * c) (maxAlloc rt)) as [?|?]; try lia;
    [reflexivity |].
  cbn [orb andb]. now destruct (mallocgc rt (Frame_size * c)).
Qed.

Lemma make_not_granted (rt : Runtime) (c : Z) :
  0 <= c -> allocatable rt c = false ->
  make rt c = Panic makeslice_cap \/ make rt c = Panic out_of_memory.
Proof.
  unfold allocatable, make. intros Hc Ha.
  destruct (Z.ltb_spec c 0) as [?|_]; [lia |].
  destruct (Z.leb_spec (2 ^ 64) (Frame_size * c)) as [?|Ho];
    [now left |].
  destruct (Z.ltb_spec (maxAlloc rt) (Frame_size * c)) as [?|Hl];
    [now left |].
  destruct (Z.ltb_spec (Frame_size * c) (2 ^ 64)) as [_|?]; [| lia].
  destruct (Z.leb_spec (Frame_size * c) (maxAlloc rt)) as [_|?]; [| lia].
  cbn [andb orb] in *. rewrite Ha. now right.
Qed.

Lemma capture_returns (rt : Runtime) (fuel : nat) (c skip d : Z) :
  0 <= c ->
  allocatable rt c = true ->
  stack_ends rt skip d = true ->
  (Z.to_nat (d - skip) < fuel)%nat ->
  exists s, capture fuel rt c skip = Ok s
            /\ elems s = stack_frames rt (Z.to_nat (d - skip)) skip.
Proof.
  intros Hc Ha Hend Hfuel. unfold capture.
  rewrite (make_granted rt c Hc Ha). cbn [bind].
  destruct (trace_loop_returns rt _ fuel {| elems := []; capacity := c |}
              skip d Hend eq_refl Hfuel) as [s [Hs He]].
  exists s. split; [exact Hs | exact He].
Qed.

Lemma capture_negative_cap (rt : Runtime) (fuel : nat) (c skip : Z) :
  c < 0 -> capture fuel rt c skip = Panic makeslice_cap.
Proof.
  intros Hc. unfold capture, make.
  destruct (Z.ltb_spec c 0) as [_|?]; [reflexivity | lia].
Qed.

Lemma capture_returns_only (fuel : nat) (rt : Runtime) (c skip : Z) :
  returns (capture fuel rt c skip) = true ->
  0 <= c /\ allocatable rt c = true.
Proof.
  unfold capture. intros H.
  pose proof (make_returns rt c) as Hm.
  destruct (make rt c); cbn in H, Hm; try discriminate H.
  symmetry in Hm. apply andb_prop in Hm as [Hc Ha].
  apply Z.leb_le in Hc. now split.
Qed.

Lemma capture_capacity (rt : Runtime) (fuel : nat) (c1 c2 skip : Z) :
  0 <= c1 -> allocatable rt c1 = true ->
  0 <= c2 -> allocatable rt c2 = true ->
  fmap elems (capture fuel rt c1 skip) = fmap elems (capture fuel rt c2 skip).
Proof.
  intros H1 A1 H2 A2. unfold capture.
  rewrite (make_granted rt c1 H1 A1), (make_granted rt c2 H2 A2).
  cbn [bind]. now apply trace_loop_capacity.
Qed.

Lemma trace_returns (rt : Runtime) (fuel : nat) (c d : Z)
    (e : error) (msg : string) (skip : Z) :
  0 <= c ->
  allocatable rt c = true ->
  stack_ends rt skip d = true ->
  (Z.to_nat (d - skip) < fuel)%nat ->
  exists fs, trace fuel rt c e msg skip
             = Ok (Ptr {| err := e; message := msg; frames := fs |})
             /\ capture fuel rt c skip = Ok fs
             /\ elems fs = stack_frames rt (Z.to_nat (d - skip)) skip.
Proof.
  intros Hc Ha Hend Hfuel.
  destruct (capture_returns rt fuel c skip d Hc Ha Hend Hfuel)
    as [fs [Hfs He]].
  exists fs. unfold trace. rewrite Hfs. cbn [bind]. auto.
Qed.

Lemma trace_capacity (rt : Runtime) (fuel : nat) (c1 c2 : Z)
    (e : error) (msg : string) (skip : Z) :
  0 <= c1 -> allocatable rt c1 = true ->
  0 <= c2 -> allocatable rt c2 = true ->
  fmap frame_sequence (trace fuel rt c1 e msg skip)
  = fmap frame_sequence (trace fuel rt c2 e msg skip).
Proof.
  intros H1 A1 H2 A2.
  pose proof (capture_capacity rt fuel c1 c2 skip H1 A1 H2 A2) as H.
  unfold trace, fmap, frame_sequence in *.
  destruct (capture fuel rt c1 skip), (capture fuel rt c2 skip);
    cbn in *; congruence.
Qed.

(** ** Wrapping *)

(** C4.  Wrapping nil is a no-op: for every note, [Wrap] of the nil error
    returns nil.  It neither panics nor builds a traced value, whatever the
    stack, the capacity hint and the fuel are. *)
Theorem Wrap_nil (fuel : nat) (rt : Runtime) (c : Z) (m : string) :
  Wrap fuel rt c nil m = Ok nil.
Proof. reflexivity. Qed.

Lemma Wrap_traced (fuel : nat) (rt : Runtime) (c : Z) (e : error) (m : string) :
  implements_Error e = true -> Wrap fuel rt c e m = Ok e.
Proof.
  intros H. unfold Wrap. rewrite H. destruct e; try discriminate; reflexivity.
Qed.

Lemma Wrap_untraced (fuel : nat) (rt : Runtime) (c : Z) (e : error) (m : string) :
  is_nil e = false -> implements_Error e = false ->
  Wrap fuel rt c e m = trace fuel rt c e m 2.
Proof.
  intros Hn Hi. unfold Wrap. now rewrite Hn, Hi.
Qed.

(** C1.  Idempotence of wrap: for a non-nil error [e] that does not
    implement [Error] and notes [m1], [m2], wrapping the result of
    [Wrap e m1] again gives the very same outcome as [Wrap e m1] alone.
    When the first wrap returns [t], the second returns [t] itself, wherever
    and with whatever capacity hint it is called: [t] still wraps [e],
    carries the message [m1] and holds the frames captured by the first
    wrap.  The first wrap does return when the capacity hint is not
    negative, the allocator serves it and the stack ends. *)
Theorem Wrap_idempotent (fuel1 fuel2 : nat) (rt1 rt2 : Runtime) (c1 c2 : Z)
    (e : error) (m1 m2 : string) :
  is_nil e = false ->
  implements_Error e = false ->
  (t <- Wrap fuel1 rt1 c1 e m1 ;; Wrap fuel2 rt2 c2 t m2)
  = Wrap fuel1 rt1 c1 e m1
  /\ (forall t, Wrap fuel1 rt1 c1 e m1 = Ok t ->
        Wrap fuel2 rt2 c2 t m2 = Ok t
        /\ exists fs, t = Ptr {| err := e; message := m1; frames := fs |}
                      /\ capture fuel1 rt1 c1 2 = Ok fs)
  /\ (forall d, 0 <= c1 -> allocatable rt1 c1 = true ->
        stack_ends rt1 2 d = true ->
        (Z.to_nat (d - 2) < fuel1)%nat ->
        returns (Wrap fuel1 rt1 c1 e m1) = true).
Proof.
  intros Hn Hi. rewrite (Wrap_untraced fuel1 rt1 c1 e m1 Hn Hi).
  unfold trace. repeat split.
  - destruct (capture fuel1 rt1 c1 2); reflexivity.
  - destruct (capture fuel1 rt1 c1 2); cbn [bind] in H; try discriminate.
    injection H as <-. reflexivity.
  - destruct (capture fuel1 rt1 c1 2) as [fs | |]; cbn [bind] in H;
      try discriminate.
    injection H as <-. exists fs. split; reflexivity.
  - intros d Hc Ha Hend Hfuel.
    destruct (capture_returns rt1 fuel1 c1 2 d Hc Ha Hend Hfuel)
      as [fs [Hfs _]].
    now rewrite Hfs.
Qed.

Lemma Wrap_idempotent_witness :
  returns (Wrap 4 example_runtime 20 (Foreign "boom") "m1") = true
  /\ (t <- Wrap 4 example_runtime 20 (Foreign "boom") "m1" ;;
      Wrap 0 empty_runtime (-1) t "m2")
     = Wrap 4 example_runtime 20 (Foreign "boom") "m1".
Proof.
  destruct (Wrap_idempotent 4 0 example_runtime empty_runtime 20 (-1)
              (Foreign "boom") "m1" "m2" eq_refl eq_refl) as [H1 [_ H3]].
  split.
  - apply (H3 5); [lia | reflexivity | reflexivity | simpl; lia].
  - exact H1.
Defined.

(** ** Unwrapping and reading the trace *)

Lemma Unwrap_traced (e : error) :
  implements_Error e = true -> Unwrap e = Error_Unwrap e.
Proof.
  intros H. destruct e; try discriminate; reflexivity.
Qed.

Lemma Unwrap_untraced (e : error) :
  is_nil e = false -> implements_Error e = false -> Unwrap e = e.
Proof.
  intros Hn Hi. unfold Unwrap. now rewrite Hn, Hi.
Qed.

(** C3.  [Unwrap] returns nil on nil; on a value that implements [Error] it
    returns what that value's [Unwrap] method returns, which for a value of
    the package is the stored original error; every other error is returned
    as it is. *)
Theorem Unwrap_spec :
  Unwrap nil = nil
  /\ (forall e, implements_Error e = true -> Unwrap e = Error_Unwrap e)
  /\ (forall d : errorData, Unwrap (Ptr d) = err d)
  /\ (forall e, is_nil e = false -> implements_Error e = false ->
        Unwrap e = e).
Proof.
  repeat split.
  - exact Unwrap_traced.
  - exact Unwrap_untraced.
Qed.

Lemma Unwrap_spec_witness :
  Unwrap (Ptr example_traced) = Foreign "boom"
  /\ Unwrap (ForeignTraced "t" nil_slice (Foreign "o")) = Foreign "o"
  /\ Unwrap (Foreign "boom") = Foreign "boom".
Proof.
  destruct Unwrap_spec as [_ [H2 [H3 H4]]].
  split; [exact (H3 example_traced) | split].
  - exact (H2 (ForeignTraced "t" nil_slice (Foreign "o")) eq_refl).
  - exact (H4 (Foreign "boom") eq_refl eq_refl).
Defined.

(** C5.  [StackTrace] returns an empty frame sequence for every error that
    does not implement [Error], nil included, and for every value that does
    implement it the frame sequence that value stores: the field [frames]
    of a value of the package, the answer of the method [StackTrace]
    otherwise. *)
Theorem StackTrace_spec :
  (forall e, implements_Error e = false ->
     StackTrace e = nil_slice /\ frame_sequence e = [])
  /\ (forall e, implements_Error e = true -> StackTrace e = Error_StackTrace e)
  /\ (forall d : errorData, StackTrace (Ptr d) = frames d).
Proof.
  repeat split.
  - unfold StackTrace. now rewrite H.
  - unfold frame_sequence, StackTrace. now rewrite H.
  - intros e H. unfold StackTrace. now rewrite H.
Qed.

Lemma StackTrace_spec_witness :
  frame_sequence (Foreign "boom") = []
  /\ StackTrace (ForeignTraced "t" (frames example_traced) nil)
     = frames example_traced
  /\ frame_sequence (Ptr example_traced) = example_frames.
Proof.
  destruct StackTrace_spec as [H1 [H2 H3]].
  split; [exact (proj2 (H1 (Foreign "boom") eq_refl)) | split].
  - exact (H2 (ForeignTraced "t" (frames example_traced) nil) eq_refl).
  - exact (f_equal elems (H3 example_traced)).
Defined.

(** ** Supplied frames *)

(** C9.  [CustomError] uses the supplied frames verbatim: it reads neither
    the stack nor the capacity hint, the frame sequence of the value it
    builds is the slice it was given, and unwrapping that value gives back
    the error it was given. *)
Theorem CustomError_verbatim (e : error) (fs : slice) :
  StackTrace (CustomError e fs) = fs
  /\ Error_StackTrace (CustomError e fs) = fs
  /\ Unwrap (CustomError e fs) = e.
Proof. repeat split. Qed.

(** C10.  [CustomError] has none of the guards of [Wrap]: for every
    original, nil or already traced, the result is a non-nil value of the
    package that stores the original and the frames as given and an empty
    message.  On an original that implements [Error] it nests: the result
    is another value than the original, with its own trace next to the one
    the original keeps, where [Wrap] returns the original itself. *)
Theorem CustomError_unguarded (o : error) (fs : slice) :
  CustomError o fs = Ptr {| err := o; message := ""; frames := fs |}
  /\ is_nil (CustomError o fs) = false
  /\ implements_Error (CustomError o fs) = true
  /\ (forall fuel rt c m,
        implements_Error o = true ->
        Wrap fuel rt c o m = Ok o
        /\ CustomError o fs <> o
        /\ implements_Error (Unwrap (CustomError o fs)) = true
        /\ StackTrace (CustomError o fs) = fs
        /\ StackTrace (Unwrap (CustomError o fs)) = StackTrace o).
Proof.
  repeat split.
  - now apply Wrap_traced.
  - apply nesting_CustomError.
  - exact H.
Qed.

Lemma CustomError_unguarded_witness :
  Wrap 0 empty_runtime 20 (Ptr example_traced) "again" = Ok (Ptr example_traced)
  /\ CustomError (Ptr example_traced) nil_slice <> Ptr example_traced
  /\ frame_sequence (CustomError (Ptr example_traced) nil_slice) = []
  /\ frame_sequence (Unwrap (CustomError (Ptr example_traced) nil_slice))
     = example_frames.
Proof.
  destruct (CustomError_unguarded (Ptr example_traced) nil_slice)
    as [_ [_ [_ H]]].
  destruct (H O empty_runtime 20 "again" eq_refl) as [H1 [H2 [_ [H4 H5]]]].
  split; [exact H1 | split; [exact H2 | split]].
  - exact (f_equal elems H4).
  - exact (f_equal elems H5).
Defined.

(** ** Rendering *)

(** [CustomError] on a nil original builds a value of the package on which
    the method [Error] renders nothing: the call [e.err.Error()] is a nil
    dereference.  The same happens one level up, on a value whose original
    is not nil but is such a value. *)
Lemma render_nil_original :
  error_Error (CustomError nil {| elems := example_frames; capacity := 2 |})
  = Panic nil_dereference
  /\ ~ (exists text,
          error_Error
            (CustomError nil {| elems := example_frames; capacity := 2 |})
          = Ok text)
  /\ error_Error
       (CustomError (CustomError nil nil_slice)
          {| elems := example_frames; capacity := 2 |})
     = Panic nil_dereference.
Proof.
  split; [reflexivity | split; [| reflexivity]].
  intros [text H]. discriminate H.
Qed.

(** C2, amended.  For every value of the package whose chain of stored
    originals ends in a non-nil error (the original is not nil, and where
    it is itself a value of the package neither is its original, and so
    on), which is exactly when the [Error] method of the original returns a
    text, [Error] produces exactly: the message and a line break if
    and only if the message is non-empty, then the text of the original and
    a line break, then each frame in order as a tab followed by
    ["<path>:<line> <function>()"], with a line break between consecutive
    frames and none after the last.  Where the chain ends in nil, [Error]
    panics.  In particular, for the message
    ["ctx"], an original of text ["boom"] and the frames [main.f] at
    [/a.go:10] and [main.g] at [/a.go:20], the result is the four lines
    [ctx], [boom], tab [/a.go:10 main.f()], tab [/a.go:20 main.g()]. *)
Theorem errorData_Error_render :
  (forall (d : errorData) (text : string),
     error_Error (err d) = Ok text ->
     errorData_Error d = Ok (render_spec (message d) text (elems (frames d))))
  /\ (forall d : errorData,
        has_text (err d) = true ->
        exists text,
          error_Error (err d) = Ok text
          /\ errorData_Error d
             = Ok (render_spec (message d) text (elems (frames d))))
  /\ (forall d : errorData,
        has_text (err d) = false ->
        errorData_Error d = Panic nil_dereference)
  /\ (forall (o : error) (c : Z),
        error_Error o = Ok "boom" ->
        errorData_Error {| err := o; message := "ctx";
                           frames := {| elems := example_frames;
                                        capacity := c |} |}
        = Ok ("ctx" ++ newline ++ "boom" ++ newline
              ++ tab ++ "/a.go:10 main.f()" ++ newline
              ++ tab ++ "/a.go:20 main.g()")).
Proof.
  split; [exact errorData_Error_text | split; [| split]].
  - intros d H. destruct (error_Error_has_text (err d) H) as [text Ht].
    exists text. split; [exact Ht | now apply errorData_Error_text].
  - intros d H. rewrite <- errorData_Error_unfold.
    now apply error_Error_no_text.
  - intros o c H.
    rewrite (errorData_Error_text
               {| err := o; message := "ctx";
                  frames := {| elems := example_frames; capacity := c |} |}
               "boom" H).
    reflexivity.
Qed.

Lemma errorData_Error_render_witness :
  errorData_Error example_traced
  = Ok (render_spec "ctx" "boom" example_frames)
  /\ errorData_Error example_traced
     = Ok ("ctx" ++ newline ++ "boom" ++ newline
           ++ tab ++ "/a.go:10 main.f()" ++ newline
           ++ tab ++ "/a.go:20 main.g()")
  /\ (exists text,
        error_Error (Ptr example_traced) = Ok text
        /\ errorData_Error
             {| err := Ptr example_traced; message := ""; frames := nil_slice |}
           = Ok (render_spec "" text []))
  /\ errorData_Error
       {| err := CustomError nil nil_slice; message := "";
          frames := nil_slice |}
     = Panic nil_dereference.
Proof.
  destruct errorData_Error_render as [H1 [H2 [H3 H4]]].
  split; [| split; [| split]].
  - exact (H1 example_traced "boom" eq_refl).
  - exact (H4 (Foreign "boom") 2 eq_refl).
  - exact (H2 {| err := Ptr example_traced; message := "";
                 frames := nil_slice |} eq_refl).
  - exact (H3 {| err := CustomError nil nil_slice; message := "";
                 frames := nil_slice |} eq_refl).
Defined.

(** ** Unwrapping, then wrapping again *)

(** A traced value built by [CustomError] on a nil original: its original
    does not implement [Error], yet wrapping what [Unwrap] gives back
    returns nil and captures nothing. *)
Lemma rewrap_nil_original :
  implements_Error (CustomError nil nil_slice) = true
  /\ implements_Error (Unwrap (CustomError nil nil_slice)) = false
  /\ Wrap 4 example_runtime 20 (Unwrap (CustomError nil nil_slice)) "note"
     = Ok nil
  /\ ~ (exists d : errorData,
          Wrap 4 example_runtime 20 (Unwrap (CustomError nil nil_slice)) "note"
          = Ok (Ptr d)).
Proof.
  repeat split. intros [d H]. discriminate H.
Qed.

(** C6, amended.  For every value [t] that implements [Error] and whose
    stored original is not nil and does not itself implement [Error], and
    every note: with a capacity hint that is not negative and that the
    allocator serves, and on a stack that ends, [Wrap (Unwrap t) note]
    builds a new value of the package
    whose original is the original of [t], whose message is the note, and
    whose frames are the ones the stack collaborator resolves at the new
    call, from depth 2 on; the frames [t] stores play no part. *)
Theorem Unwrap_then_Wrap (fuel : nat) (rt : Runtime) (c d : Z)
    (t : error) (note : string) :
  implements_Error t = true ->
  is_nil (Unwrap t) = false ->
  implements_Error (Unwrap t) = false ->
  0 <= c ->
  allocatable rt c = true ->
  stack_ends rt 2 d = true ->
  (Z.to_nat (d - 2) < fuel)%nat ->
  exists fs,
    Wrap fuel rt c (Unwrap t) note
    = Ok (Ptr {| err := Error_Unwrap t; message := note; frames := fs |})
    /\ elems fs = stack_frames rt (Z.to_nat (d - 2)) 2.
Proof.
  intros Ht Hn Hi Hc Ha Hend Hfuel.
  rewrite (Wrap_untraced fuel rt c (Unwrap t) note Hn Hi).
  destruct (trace_returns rt fuel c d (Unwrap t) note 2 Hc Ha Hend Hfuel)
    as [fs [Hfs [_ He]]].
  exists fs. split; [| exact He].
  rewrite Hfs. now rewrite (Unwrap_traced t Ht).
Qed.

Lemma Unwrap_then_Wrap_witness :
  exists fs,
    Wrap 4 example_runtime 20 (Unwrap (Ptr example_traced)) "note"
    = Ok (Ptr {| err := Foreign "boom"; message := "note"; frames := fs |})
    /\ elems fs = stack_frames example_runtime 3 2.
Proof.
  apply (Unwrap_then_Wrap 4 example_runtime 20 5 (Ptr example_traced) "note");
    [reflexivity | reflexivity | reflexivity | lia | reflexivity
    | reflexivity | simpl; lia].
Defined.

(** ** Failure *)

(** With a negative capacity hint every constructor that captures panics in
    [make], and [Error] panics on a value of the package that stores a nil
    original.  [make] panics as well on the largest [int], and on a
    capacity within the allocator's limit it ends the process where the
    memory is not there. *)
Lemma operations_can_panic :
  capture 4 example_runtime (-1) 2 = Panic makeslice_cap
  /\ New string plain_Sprintf 4 example_runtime (-1) "x" = Panic makeslice_cap
  /\ Errorf string plain_Sprintf 4 example_runtime (-1) "x" []
     = Panic makeslice_cap
  /\ Wrap 4 example_runtime (-1) (Foreign "boom") "ctx" = Panic makeslice_cap
  /\ error_Error (CustomError nil nil_slice) = Panic nil_dereference
  /\ New string plain_Sprintf 4 example_runtime int_max "x"
     = Panic makeslice_cap
  /\ New string plain_Sprintf 4 example_runtime (2 ^ 40) "x"
     = Panic out_of_memory.
Proof. repeat split. Qed.

(** C7, amended.  With a capacity hint that is not negative and that the
    allocator serves, on a stack that ends and with fuel for its depth,
    [Errorf], [New], [Newf], [Wrap] and [Wrapf] return on every input, and
    [Wrap] of nil returns nil.  The capture returns for every skip depth
    below the end of the stack: what it returns are the frames the
    collaborator resolves from that depth on, never more than the depths
    left, and none at all when the first query resolves nothing; it returns
    on no other capacity hint.  [Error] returns exactly on the values whose
    chain of stored originals ends in a non-nil error.  [CustomError]
    returns a non-nil value on every input.  [Unwrap] and [StackTrace]
    return on every input: the method call each of them makes, a nil
    dereference on a nil receiver, is made only behind the type assertion,
    which nil does not pass. *)
Theorem operations_return (any : Type) (Sprintf : string -> list any -> string)
    (fuel : nat) (rt : Runtime) (c d : Z) :
  0 <= c ->
  allocatable rt c = true ->
  stack_ends rt 2 d = true ->
  (Z.to_nat (d - 2) < fuel)%nat ->
  (forall msg args, returns (Errorf any Sprintf fuel rt c msg args) = true)
  /\ (forall msg, returns (New any Sprintf fuel rt c msg) = true)
  /\ (forall format a, returns (Newf any Sprintf fuel rt c format a) = true)
  /\ (forall e msg, returns (Wrap fuel rt c e msg) = true)
  /\ (forall e format a,
        returns (Wrapf any Sprintf fuel rt c e format a) = true)
  /\ (forall msg, Wrap fuel rt c nil msg = Ok nil)
  /\ (forall skip d',
        stack_ends rt skip d' = true ->
        (Z.to_nat (d' - skip) < fuel)%nat ->
        exists s, capture fuel rt c skip = Ok s
                  /\ elems s = stack_frames rt (Z.to_nat (d' - skip)) skip
                  /\ (length (elems s) <= Z.to_nat (d' - skip))%nat
                  /\ (ok (Caller rt skip) = false -> elems s = []))
  /\ (forall c' skip,
        returns (capture fuel rt c' skip) = true ->
        0 <= c' /\ allocatable rt c' = true)
  /\ (forall e, returns (error_Error e) = has_text e)
  /\ (forall x : errorData,
        has_text (err x) = true -> exists text, errorData_Error x = Ok text)
  /\ (forall e fs,
        is_nil (CustomError e fs) = false
        /\ implements_Error (CustomError e fs) = true)
  /\ (forall e, Unwrap_run e = Ok (Unwrap e))
  /\ (forall e, StackTrace_run e = Ok (StackTrace e)).
Proof.
  intros Hc Ha Hend Hfuel.
  assert (Htrace : forall e msg, returns (trace fuel rt c e msg 2) = true).
  { intros e msg.
    destruct (trace_returns rt fuel c d e msg 2 Hc Ha Hend Hfuel)
      as [fs [H _]].
    now rewrite H. }
  assert (HWrap : forall e msg, returns (Wrap fuel rt c e msg) = true).
  { intros e msg. unfold Wrap.
    destruct (is_nil e); [reflexivity |].
    destruct (implements_Error e); [reflexivity | apply Htrace]. }
  repeat split.
  - intros msg args. apply Htrace.
  - intros msg. apply Htrace.
  - intros format a. apply Htrace.
  - exact HWrap.
  - intros e format a. apply HWrap.
  - intros skip d' Hend' Hfuel'.
    destruct (capture_returns rt fuel c skip d' Hc Ha Hend' Hfuel')
      as [s [Hs He]].
    exists s. split; [exact Hs | split; [exact He | split]].
    + rewrite He. apply stack_frames_length.
    + intros Hno. rewrite He. now apply stack_frames_unresolved.
  - apply (capture_returns_only fuel rt c' skip H).
  - apply (capture_returns_only fuel rt c' skip H).
  - exact error_Error_returns.
  - intros x Hx. apply returns_Ok.
    rewrite <- errorData_Error_unfold, error_Error_returns. exact Hx.
  - intros e. destruct e; reflexivity.
  - intros e. destruct e; reflexivity.
Qed.

Lemma operations_return_witness :
  returns (New string plain_Sprintf 4 example_runtime 0 "x") = true
  /\ returns (Wrap 4 example_runtime 0 (Foreign "boom") "ctx") = true
  /\ exists s, capture 4 example_runtime 0 2 = Ok s
               /\ elems s = stack_frames example_runtime 3 2.
Proof.
  destruct (operations_return string plain_Sprintf 4 example_runtime 0 5)
    as [_ [H2 [_ [H4 [_ [_ [H7 _]]]]]]];
    [lia | reflexivity | reflexivity | simpl; lia |].
  split; [exact (H2 "x") | split; [exact (H4 (Foreign "boom") "ctx") |]].
  destruct (H7 2 5) as [s [Hs [He _]]]; [reflexivity | simpl; lia |].
  exists s. split; [exact Hs | exact He].
Defined.

(** ** The capacity hint *)

(** The hint is visible in the capacity of the slice [trace] stores. *)
Example capture_capacity_visible :
  fmap capacity (capture 4 example_runtime 0 2) = Ok 3
  /\ fmap capacity (capture 4 example_runtime 20 2) = Ok 20.
Proof. split; reflexivity. Qed.

(** Two capacity hints that are not negative and the same stack: with 20
    the capture returns the three frames of the stack, with the largest
    [int] it panics in [make]. *)
Lemma DefaultCap_too_large :
  0 <= 20 /\ 0 <= int_max
  /\ fmap elems (capture 4 example_runtime 20 2)
     = Ok (stack_frames example_runtime 3 2)
  /\ capture 4 example_runtime int_max 2 = Panic makeslice_cap
  /\ fmap elems (capture 4 example_runtime 20 2)
     <> fmap elems (capture 4 example_runtime int_max 2).
Proof.
  split; [lia | split; [unfold int_max; lia |]].
  split; [reflexivity | split; [reflexivity |]].
  intros H. discriminate H.
Qed.

(** C8, amended.  For two capacity hints that are not negative and that the
    allocator serves, and the same state of the stack collaborator, the
    capture returns the same frame sequence, and so does every constructor
    that captures ([Errorf], [New], [Newf], [Wrap], [Wrapf]); the outcomes
    agree also when the fuel runs out.  On a stack that ends, that sequence
    is the one the collaborator resolves.  Only the capacity of the slice
    depends on the hint. *)
Theorem DefaultCap_noninterference (any : Type)
    (Sprintf : string -> list any -> string)
    (fuel : nat) (rt : Runtime) (c1 c2 : Z) :
  0 <= c1 ->
  allocatable rt c1 = true ->
  0 <= c2 ->
  allocatable rt c2 = true ->
  (forall skip,
     fmap elems (capture fuel rt c1 skip) = fmap elems (capture fuel rt c2 skip))
  /\ (forall msg args,
        fmap frame_sequence (Errorf any Sprintf fuel rt c1 msg args)
        = fmap frame_sequence (Errorf any Sprintf fuel rt c2 msg args))
  /\ (forall msg,
        fmap frame_sequence (New any Sprintf fuel rt c1 msg)
        = fmap frame_sequence (New any Sprintf fuel rt c2 msg))
  /\ (forall format a,
        fmap frame_sequence (Newf any Sprintf fuel rt c1 format a)
        = fmap frame_sequence (Newf any Sprintf fuel rt c2 format a))
  /\ (forall e msg,
        fmap frame_sequence (Wrap fuel rt c1 e msg)
        = fmap frame_sequence (Wrap fuel rt c2 e msg))
  /\ (forall e format a,
        fmap frame_sequence (Wrapf any Sprintf fuel rt c1 e format a)
        = fmap frame_sequence (Wrapf any Sprintf fuel rt c2 e format a))
  /\ (forall skip d,
        stack_ends rt skip d = true ->
        (Z.to_nat (d - skip) < fuel)%nat ->
        fmap elems (capture fuel rt c1 skip)
        = Ok (stack_frames rt (Z.to_nat (d - skip)) skip)
        /\ fmap elems (capture fuel rt c2 skip)
           = Ok (stack_frames rt (Z.to_nat (d - skip)) skip)).
Proof.
  intros H1 A1 H2 A2.
  assert (HWrap : forall e msg,
             fmap frame_sequence (Wrap fuel rt c1 e msg)
             = fmap frame_sequence (Wrap fuel rt c2 e msg)).
  { intros e msg. unfold Wrap.
    destruct (is_nil e); [reflexivity |].
    destruct (implements_Error e); [reflexivity |].
    now apply trace_capacity. }
  repeat split.
  - intros skip. now apply capture_capacity.
  - intros msg args. now apply trace_capacity.
  - intros msg. now apply trace_capacity.
  - intros format a. now apply trace_capacity.
  - exact HWrap.
  - intros e format a. apply HWrap.
  - destruct (capture_returns rt fuel c1 skip d H1 A1 H H0) as [s [Hs He]].
    rewrite Hs. cbn. now rewrite He.
  - destruct (capture_returns rt fuel c2 skip d H2 A2 H H0) as [s [Hs He]].
    rewrite Hs. cbn. now rewrite He.
Qed.

Lemma DefaultCap_noninterference_witness :
  fmap elems (capture 4 example_runtime 0 2)
  = fmap elems (capture 4 example_runtime 20 2)
  /\ fmap elems (capture 4 example_runtime 0 2)
     = Ok (stack_frames example_runtime 3 2)
  /\ fmap frame_sequence (Wrap 4 example_runtime 0 (Foreign "boom") "ctx")
     = fmap frame_sequence (Wrap 4 example_runtime 20 (Foreign "boom") "ctx").
Proof.
  destruct (DefaultCap_noninterference string plain_Sprintf 4 example_runtime
              0 20) as [H1 [_ [_ [_ [H5 [_ H7]]]]]];
    [lia | reflexivity | lia | reflexivity |].
  split; [exact (H1 2) | split; [| exact (H5 (Foreign "boom") "ctx")]].
  destruct (H7 2 5) as [H _]; [reflexivity | simpl; lia | exact H].
Defined.

(** * Further properties of the package *)

(** ** What a fresh trace holds *)

(** The value [trace] returns on a stack that ends: its original, its
    frames, and its rendering when the original has a text. *)
Lemma trace_fresh (rt : Runtime) (fuel : nat) (c d : Z)
    (e : error) (msg : string) :
  0 <= c ->
  allocatable rt c = true ->
  stack_ends rt 2 d = true ->
  (Z.to_nat (d - 2) < fuel)%nat ->
  exists t,
    trace fuel rt c e msg 2 = Ok t
    /\ implements_Error t = true
    /\ Unwrap t = e
    /\ frame_sequence t = stack_frames rt (Z.to_nat (d - 2)) 2
    /\ (forall text, error_Error e = Ok text ->
          error_Error t
          = Ok (render_spec msg text (stack_frames rt (Z.to_nat (d - 2)) 2))).
Proof.
  intros Hc Ha Hend Hfuel.
  destruct (trace_returns rt fuel c d e msg 2 Hc Ha Hend Hfuel)
    as [fs [Ht [_ He]]].
  exists (Ptr {| err := e; message := msg; frames := fs |}).
  repeat split; try assumption.
  intros text Htext. rewrite errorData_Error_unfold.
  rewrite (errorData_Error_text
             {| err := e; message := msg; frames := fs |} text Htext).
  cbn [message frames]. now rewrite He.
Qed.

Lemma stack_ends_above (rt : Runtime) (skip d : Z) :
  stack_ends rt skip d = true -> ok (Caller rt skip) = true -> skip < d.
Proof.
  unfold stack_ends. intros H Hok.
  apply andb_prop in H as [H Hno]. apply andb_prop in H as [H _].
  apply andb_prop in H as [_ Hle]. apply Z.leb_le in Hle.
  destruct (Z.eq_dec skip d) as [-> | Hne]; [| lia].
  rewrite Hok in Hno. discriminate Hno.
Qed.

Lemma stack_frames_head (rt : Runtime) (skip d : Z) :
  stack_ends rt skip d = true ->
  ok (Caller rt skip) = true ->
  hd_error (stack_frames rt (Z.to_nat (d - skip)) skip)
  = Some (frame_at rt skip).
Proof.
  intros Hend Hok. pose proof (stack_ends_above rt skip d Hend Hok) as Hlt.
  destruct (Z.to_nat (d - skip)) as [|n] eqn:E; [lia |].
  cbn [stack_frames]. now rewrite Hok.
Qed.

(** X1.  Wrapping a non-nil error that has no trace yet, with a capacity
    hint that is not negative and that the allocator serves, and on a stack
    that ends: [Wrap] returns a
    value that implements [Error], that [Unwrap] takes back to the wrapped
    error, and whose frames are the ones the collaborator resolves from
    depth 2 on.  When depth 2 resolves, the trace is not empty and its
    first frame is the one of depth 2, the caller of [Wrap]. *)
Theorem Wrap_fresh_trace (fuel : nat) (rt : Runtime) (c d : Z)
    (e : error) (m : string) :
  is_nil e = false ->
  implements_Error e = false ->
  0 <= c ->
  allocatable rt c = true ->
  stack_ends rt 2 d = true ->
  (Z.to_nat (d - 2) < fuel)%nat ->
  exists t,
    Wrap fuel rt c e m = Ok t
    /\ implements_Error t = true
    /\ Unwrap t = e
    /\ frame_sequence t = stack_frames rt (Z.to_nat (d - 2)) 2
    /\ (ok (Caller rt 2) = true ->
          hd_error (frame_sequence t) = Some (frame_at rt 2)).
Proof.
  intros Hn Hi Hc Ha Hend Hfuel.
  destruct (trace_fresh rt fuel c d e m Hc Ha Hend Hfuel)
    as [t [Ht [Himp [Hun [Hfs _]]]]].
  exists t. rewrite (Wrap_untraced fuel rt c e m Hn Hi).
  repeat split; try assumption.
  intros Hok. rewrite Hfs. now apply stack_frames_head.
Qed.

Lemma Wrap_fresh_trace_witness :
  exists t,
    Wrap 4 example_runtime 20 (Foreign "boom") "ctx" = Ok t
    /\ implements_Error t = true
    /\ Unwrap t = Foreign "boom"
    /\ frame_sequence t = stack_frames example_runtime 3 2
    /\ (ok (Caller example_runtime 2) = true ->
          hd_error (frame_sequence t) = Some (frame_at example_runtime 2)).
Proof.
  apply (Wrap_fresh_trace 4 example_runtime 20 5 (Foreign "boom") "ctx");
    [reflexivity | reflexivity | lia | reflexivity | reflexivity
    | simpl; lia].
Defined.

(** X2.  [New], [Errorf] and [Newf], with a capacity hint that is not
    negative and that the allocator serves, and on a stack that ends,
    return a value whose original is the
    error [fmt.Errorf] builds from the format and the operands ([New]
    passes its message as a format without operands), with the frames
    resolved from depth 2 on.  The message is empty: the rendering starts
    with the formatted text, with no line before it.  [Errorf] and [Newf]
    return the same value. *)
Theorem New_Errorf_Newf_fresh (any : Type)
    (Sprintf : string -> list any -> string)
    (fuel : nat) (rt : Runtime) (c d : Z) (format : string) (a : list any) :
  0 <= c ->
  allocatable rt c = true ->
  stack_ends rt 2 d = true ->
  (Z.to_nat (d - 2) < fuel)%nat ->
  (exists t,
     New any Sprintf fuel rt c format = Ok t
     /\ Unwrap t = Foreign (Sprintf format [])
     /\ frame_sequence t = stack_frames rt (Z.to_nat (d - 2)) 2
     /\ error_Error t
        = Ok (Sprintf format [] ++ newline
              ++ String.concat newline
                   (map (fun f => tab ++ Frame_String f)
                        (stack_frames rt (Z.to_nat (d - 2)) 2))))
  /\ (exists t,
        Errorf any Sprintf fuel rt c format a = Ok t
        /\ Newf any Sprintf fuel rt c format a = Ok t
        /\ Unwrap t = Foreign (Sprintf format a)
        /\ frame_sequence t = stack_frames rt (Z.to_nat (d - 2)) 2
        /\ error_Error t
           = Ok (Sprintf format a ++ newline
                 ++ String.concat newline
                      (map (fun f => tab ++ Frame_String f)
                           (stack_frames rt (Z.to_nat (d - 2)) 2)))).
Proof.
  intros Hc Ha Hend Hfuel. split.
  - destruct (trace_fresh rt fuel c d (Foreign (Sprintf format [])) ""
                Hc Ha Hend Hfuel) as [t [Ht [_ [Hun [Hfs Hr]]]]].
    exists t. repeat split; try assumption.
    exact (Hr _ eq_refl).
  - destruct (trace_fresh rt fuel c d (Foreign (Sprintf format a)) ""
                Hc Ha Hend Hfuel) as [t [Ht [_ [Hun [Hfs Hr]]]]].
    exists t. repeat split; try assumption.
    exact (Hr _ eq_refl).
Qed.

Lemma New_Errorf_Newf_fresh_witness :
  exists t,
    New string plain_Sprintf 4 example_runtime 20 "boom" = Ok t
    /\ Unwrap t = Foreign "boom"
    /\ frame_sequence t = stack_frames example_runtime 3 2
    /\ error_Error t
       = Ok ("boom" ++ newline
             ++ String.concat newline
                  (map (fun f => tab ++ Frame_String f)
                       (stack_frames example_runtime 3 2))).
Proof.
  destruct (New_Errorf_Newf_fresh string plain_Sprintf 4 example_runtime 20 5
              "boom" []) as [H _];
    [lia | reflexivity | reflexivity | simpl; lia |].
  exact H.
Defined.

(** ** A negative capacity hint *)

(** X3.  With a negative capacity hint, [New], [Errorf] and [Newf] panic in
    [make] on every input and every stack, before the stack is read (no
    fuel is used); [Wrap] and [Wrapf] panic exactly when they have to
    capture, on a non-nil error without a trace, and still return nil on
    nil and a traced error as it is. *)
Theorem negative_DefaultCap (any : Type)
    (Sprintf : string -> list any -> string)
    (fuel : nat) (rt : Runtime) (c : Z) :
  c < 0 ->
  (forall format a,
     Errorf any Sprintf fuel rt c format a = Panic makeslice_cap
     /\ Newf any Sprintf fuel rt c format a = Panic makeslice_cap)
  /\ (forall msg, New any Sprintf fuel rt c msg = Panic makeslice_cap)
  /\ (forall e m,
        Wrap fuel rt c e m
        = if is_nil e then Ok nil
          else if implements_Error e then Ok e
          else Panic makeslice_cap)
  /\ (forall e format a,
        Wrapf any Sprintf fuel rt c e format a
        = if is_nil e then Ok nil
          else if implements_Error e then Ok e
          else Panic makeslice_cap).
Proof.
  intros Hc.
  assert (Ht : forall e m, trace fuel rt c e m 2 = Panic makeslice_cap).
  { intros e m. unfold trace. now rewrite capture_negative_cap. }
  assert (HW : forall e m,
             Wrap fuel rt c e m
             = if is_nil e then Ok nil
               else if implements_Error e then Ok e
               else Panic makeslice_cap).
  { intros e m. unfold Wrap. now rewrite Ht. }
  repeat split; intros; try apply Ht; try apply HW.
Qed.

Lemma negative_DefaultCap_witness :
  New string plain_Sprintf 0 empty_runtime (-1) "x" = Panic makeslice_cap
  /\ Wrap 0 empty_runtime (-1) (Foreign "boom") "ctx" = Panic makeslice_cap
  /\ Wrap 0 empty_runtime (-1) (Ptr example_traced) "ctx"
     = Ok (Ptr example_traced).
Proof.
  destruct (negative_DefaultCap string plain_Sprintf 0 empty_runtime (-1))
    as [_ [H2 [H3 _]]]; [lia |].
  split; [exact (H2 "x") | split].
  - exact (H3 (Foreign "boom") "ctx").
  - exact (H3 (Ptr example_traced) "ctx").
Defined.

(** ** The order and the number of the captured frames *)

Lemma depths_S (skip : Z) (n : nat) :
  depths skip (S n) = skip :: depths (skip + 1) n.
Proof.
  unfold depths. cbn [seq map]. rewrite Z.add_0_r. f_equal.
  rewrite <- seq_shift, map_map. apply map_ext. intros i. lia.
Qed.

Lemma depths_length (skip : Z) (n : nat) : length (depths skip n) = n.
Proof. unfold depths. now rewrite length_map, length_seq. Qed.

Lemma depths_nth (skip : Z) (n i : nat) :
  (i < n)%nat -> nth_error (depths skip n) i = Some (skip + Z.of_nat i).
Proof.
  intros Hi. unfold depths.
  apply (map_nth_error (fun j => skip + Z.of_nat j)).
  rewrite (nth_error_nth' _ O) by now rewrite length_seq.
  now rewrite seq_nth.
Qed.

(** While every depth resolves, the frames read are one per depth. *)
Lemma stack_frames_resolved (rt : Runtime) (n : nat) :
  forall skip,
    (forall k, skip <= k < skip + Z.of_nat n -> ok (Caller rt k) = true) ->
    stack_frames rt n skip = map (frame_at rt) (depths skip n).
Proof.
  induction n as [|n IH]; intros skip Hall.
  - reflexivity.
  - rewrite depths_S. cbn [stack_frames map].
    rewrite (Hall skip) by lia. f_equal.
    apply IH. intros k Hk. apply Hall. lia.
Qed.

(** X4.  The capture is ordered innermost first and stops at the first
    depth the collaborator does not resolve: when the depths from [skip] up
    to [d] resolve and [d] does not, the capture returns exactly [d - skip]
    frames, and the frame at index [i] is the one built from the answer at
    depth [skip + i], whatever the collaborator would answer above [d].
    The capacity hint is one that is not negative and that the allocator
    serves. *)
Theorem capture_innermost_first (fuel : nat) (rt : Runtime) (c skip d : Z) :
  0 <= c ->
  allocatable rt c = true ->
  stack_ends rt skip d = true ->
  (forall k, skip <= k < d -> ok (Caller rt k) = true) ->
  (Z.to_nat (d - skip) < fuel)%nat ->
  exists s,
    capture fuel rt c skip = Ok s
    /\ elems s = map (frame_at rt) (depths skip (Z.to_nat (d - skip)))
    /\ len s = d - skip
    /\ (forall i, (i < Z.to_nat (d - skip))%nat ->
          nth_error (elems s) i = Some (frame_at rt (skip + Z.of_nat i))).
Proof.
  intros Hc Ha Hend Hall Hfuel.
  destruct (capture_returns rt fuel c skip d Hc Ha Hend Hfuel)
    as [s [Hs He]].
  assert (Hle : skip <= d).
  { unfold stack_ends in Hend.
    apply andb_prop in Hend as [Hend _]. apply andb_prop in Hend as [Hend _].
    apply andb_prop in Hend as [_ Hle]. now apply Z.leb_le in Hle. }
  rewrite stack_frames_resolved in He by (intros k Hk; apply Hall; lia).
  exists s. split; [exact Hs | split; [exact He | split]].
  - unfold len. rewrite He, length_map, depths_length. lia.
  - intros i Hi. rewrite He. apply map_nth_error. now apply depths_nth.
Qed.

Lemma capture_innermost_first_witness :
  exists s,
    capture 4 example_runtime 20 2 = Ok s
    /\ elems s = map (frame_at example_runtime) [2; 3; 4]
    /\ len s = 3
    /\ (forall i, (i < 3)%nat ->
          nth_error (elems s) i
          = Some (frame_at example_runtime (2 + Z.of_nat i))).
Proof.
  apply (capture_innermost_first 4 example_runtime 20 2 5);
    [lia | reflexivity | reflexivity | | simpl; lia].
  intros k Hk.
  assert (Hcases : k = 2 \/ k = 3 \/ k = 4) by lia.
  destruct Hcases as [-> | [-> | ->]]; reflexivity.
Defined.

(** ** A capacity hint that suffices *)

Lemma trace_loop_len (rt : Runtime) (fuel : nat) :
  forall (s s' : slice) (skip : Z),
    trace_loop fuel rt s skip = Ok s' -> len s <= len s'.
Proof.
  induction fuel as [|fuel IH]; intros s s' skip H; cbn [trace_loop] in H.
  - discriminate H.
  - destruct (ok (Caller rt skip)); cbn [negb] in H.
    + apply IH in H. unfold len in *. cbn [append elems] in H.
      rewrite length_app in H. simpl in H. lia.
    + injection H as <-. lia.
Qed.

(** A loop whose result fits the capacity it started with never asks
    [append] for a new backing array. *)
Lemma trace_loop_no_growth (rt : Runtime) (g : Z -> Z) (fuel : nat) :
  forall (s s' : slice) (skip : Z),
    trace_loop fuel rt s skip = Ok s' ->
    len s' <= capacity s ->
    capacity s' = capacity s
    /\ trace_loop fuel (with_growslice g rt) s skip = Ok s'.
Proof.
  induction fuel as [|fuel IH]; intros s s' skip H Hfit;
    cbn [trace_loop] in *.
  - discriminate H.
  - cbn [with_growslice Caller FuncForPC].
    destruct (ok (Caller rt skip)); cbn [negb] in *.
    + pose proof (trace_loop_len rt fuel _ _ _ H) as Hlen.
      assert (Hroom : len s < capacity s).
      { unfold len in *. cbn [append elems] in Hlen.
        rewrite length_app in Hlen. simpl in Hlen. lia. }
      assert (Happ : forall f,
                 append (with_growslice g rt) s f = append rt s f
                 /\ capacity (append rt s f) = capacity s).
      { intros f. unfold append.
        destruct (Z.ltb_spec (len s) (capacity s)) as [_|?]; [| lia].
        split; reflexivity. }
      destruct (Happ {| Func := Name (FuncForPC rt (pc (Caller rt skip)));
                        Line := line (Caller rt skip);
                        Path := file (Caller rt skip) |}) as [Heq Hcap].
      rewrite Heq.
      destruct (IH _ _ _ H) as [Hc' Hrun]; [lia |].
      split; [lia | exact Hrun].
    + injection H as <-. split; reflexivity.
Qed.

(** X5.  When the capacity hint is one the allocator serves and is at least
    the number of depths left on the stack, the slice [trace] builds keeps the capacity [make] gave it:
    no [append] of the loop finds the slice full, and the value returned is
    the same under every growth policy of [append]. *)
Theorem capture_no_reallocation (fuel : nat) (rt : Runtime) (c skip d : Z) :
  0 <= c ->
  allocatable rt c = true ->
  stack_ends rt skip d = true ->
  (Z.to_nat (d - skip) < fuel)%nat ->
  d - skip <= c ->
  exists s,
    capture fuel rt c skip = Ok s
    /\ capacity s = c
    /\ (forall g, capture fuel (with_growslice g rt) c skip = Ok s).
Proof.
  intros Hc Ha Hend Hfuel Hfit.
  destruct (capture_returns rt fuel c skip d Hc Ha Hend Hfuel)
    as [s [Hs He]].
  exists s. split; [exact Hs |].
  unfold capture in *.
  assert (Ha' : forall g, allocatable (with_growslice g rt) c = true)
    by (intros g; exact Ha).
  rewrite (make_granted rt c Hc Ha) in Hs. cbn [bind] in Hs.
  assert (Hlen : len s <= c).
  { unfold len. rewrite He.
    pose proof (stack_frames_length rt (Z.to_nat (d - skip)) skip). lia. }
  split.
  - now destruct (trace_loop_no_growth rt (growslice rt) fuel _ _ _ Hs Hlen).
  - intros g. rewrite (make_granted _ c Hc (Ha' g)). cbn [bind].
    now destruct (trace_loop_no_growth rt g fuel _ _ _ Hs Hlen).
Qed.

Lemma capture_no_reallocation_witness :
  exists s,
    capture 4 example_runtime 3 2 = Ok s
    /\ capacity s = 3
    /\ (forall g, capture 4 (with_growslice g example_runtime) 3 2 = Ok s).
Proof.
  apply (capture_no_reallocation 4 example_runtime 3 2 5);
    [lia | reflexivity | reflexivity | simpl; lia | lia].
Defined.

(** ** Rendering what the constructors return *)

(** X6.  The rendering of what [Wrap] and [Wrapf] return.  On an error that
    already implements [Error] it is the rendering of that error: the note
    does not appear, whatever the stack and the capacity hint.  On a
    non-nil error without a trace, with a capacity hint that is not
    negative and that the allocator serves, and on a stack that ends, it is
    the note as first line when
    the note is not empty, the text of the error, and the frames resolved
    from depth 2 on; for [Wrapf] the note is the formatted one. *)
Theorem Wrap_render (any : Type) (Sprintf : string -> list any -> string) :
  (forall fuel rt c e m,
     implements_Error e = true ->
     (t <- Wrap fuel rt c e m ;; error_Error t) = error_Error e)
  /\ (forall fuel rt c d e m text,
        is_nil e = false ->
        implements_Error e = false ->
        error_Error e = Ok text ->
        0 <= c ->
        allocatable rt c = true ->
        stack_ends rt 2 d = true ->
        (Z.to_nat (d - 2) < fuel)%nat ->
        (t <- Wrap fuel rt c e m ;; error_Error t)
        = Ok (render_spec m text (stack_frames rt (Z.to_nat (d - 2)) 2))
        /\ forall format a,
             (t <- Wrapf any Sprintf fuel rt c e format a ;; error_Error t)
             = Ok (render_spec (Sprintf format a) text
                     (stack_frames rt (Z.to_nat (d - 2)) 2))).
Proof.
  split.
  - intros fuel rt c e m He. now rewrite (Wrap_traced fuel rt c e m He).
  - intros fuel rt c d e m text Hn Hi Htext Hc Ha Hend Hfuel.
    assert (H : forall note,
               (t <- Wrap fuel rt c e note ;; error_Error t)
               = Ok (render_spec note text
                       (stack_frames rt (Z.to_nat (d - 2)) 2))).
    { intros note. rewrite (Wrap_untraced fuel rt c e note Hn Hi).
      destruct (trace_fresh rt fuel c d e note Hc Ha Hend Hfuel)
        as [t [Ht [_ [_ [_ Hr]]]]].
      rewrite Ht. cbn [bind]. now apply Hr. }
    split; [apply H |]. intros format a. apply H.
Qed.

Lemma Wrap_render_witness :
  (t <- Wrap 0 empty_runtime (-1) (Ptr example_traced) "again" ;;
   error_Error t)
  = error_Error (Ptr example_traced)
  /\ (t <- Wrap 4 example_runtime 20 (Foreign "boom") "ctx" ;; error_Error t)
     = Ok (render_spec "ctx" "boom" (stack_frames example_runtime 3 2)).
Proof.
  destruct (Wrap_render string plain_Sprintf) as [H1 H2].
  split.
  - exact (H1 O empty_runtime (-1) (Ptr example_traced) "again" eq_refl).
  - destruct (H2 4%nat example_runtime 20 5 (Foreign "boom") "ctx" "boom")
      as [H _];
      [reflexivity | reflexivity | reflexivity | lia | reflexivity
      | reflexivity | simpl; lia | exact H].
Defined.

(** X7.  Where the collaborator resolves nothing at depth 2, a capture is
    not an error: with a capacity hint that is not negative and that the
    allocator serves, [Wrap] of a
    non-nil error without a trace returns after one query, with an empty
    trace, and the rendering is the note line (when there is a note) and
    the text of the error, each followed by a line break, the last one
    included. *)
Theorem Wrap_unresolved_stack (fuel : nat) (rt : Runtime) (c : Z)
    (e : error) (m text : string) :
  is_nil e = false ->
  implements_Error e = false ->
  error_Error e = Ok text ->
  0 <= c ->
  allocatable rt c = true ->
  ok (Caller rt 2) = false ->
  (0 < fuel)%nat ->
  exists t,
    Wrap fuel rt c e m = Ok t
    /\ Unwrap t = e
    /\ frame_sequence t = []
    /\ error_Error t
       = Ok ((if String.eqb m "" then "" else m ++ newline)
             ++ text ++ newline).
Proof.
  intros Hn Hi Htext Hc Ha Hno Hfuel.
  assert (Hend : stack_ends rt 2 2 = true).
  { unfold stack_ends. now rewrite Hno. }
  destruct (trace_fresh rt fuel c 2 e m Hc Ha Hend Hfuel)
    as [t [Ht [_ [Hun [Hfs Hr]]]]].
  exists t. rewrite (Wrap_untraced fuel rt c e m Hn Hi).
  repeat split; try assumption.
  rewrite (Hr text Htext). unfold render_spec. cbn [stack_frames Z.to_nat
    Z.sub Z.add Z.opp Z.pos_sub map String.concat].
  now rewrite append_empty_r.
Qed.

Lemma Wrap_unresolved_stack_witness :
  exists t,
    Wrap 1 empty_runtime 20 (Foreign "boom") "ctx" = Ok t
    /\ Unwrap t = Foreign "boom"
    /\ frame_sequence t = []
    /\ error_Error t = Ok ("ctx" ++ newline ++ "boom" ++ newline).
Proof.
  apply (Wrap_unresolved_stack 1 empty_runtime 20 (Foreign "boom")
           "ctx" "boom");
    [reflexivity | reflexivity | reflexivity | lia | reflexivity
    | reflexivity | lia].
Defined.

(** ** Unwrapping layer by layer *)

Lemma layers_Unwrap (e : error) :
  implements_Error e = true -> layers e = S (layers (Unwrap e)).
Proof.
  intros H. destruct e; try discriminate; reflexivity.
Qed.

Lemma layers_O (e : error) : layers e = O -> implements_Error e = false.
Proof.
  destruct e; try reflexivity; discriminate.
Qed.

Lemma Unwrap_iter_traced (n : nat) :
  forall e k,
    layers e = n -> (k < n)%nat ->
    implements_Error (Nat.iter k Unwrap e) = true.
Proof.
  induction n as [|n IH]; intros e k Hl Hk; [lia |].
  assert (He : implements_Error e = true).
  { destruct e; try discriminate; reflexivity. }
  destruct k as [|k]; [exact He |].
  rewrite Nat.iter_succ_r. apply IH; [| lia].
  rewrite (layers_Unwrap e He) in Hl. now injection Hl.
Qed.

Lemma Unwrap_iter_layers (n : nat) :
  forall e,
    layers e = n -> layers (Nat.iter n Unwrap e) = O.
Proof.
  induction n as [|n IH]; intros e Hl; [exact Hl |].
  assert (He : implements_Error e = true).
  { destruct e; try discriminate; reflexivity. }
  rewrite Nat.iter_succ_r. apply IH.
  rewrite (layers_Unwrap e He) in Hl. now injection Hl.
Qed.

(** X8.  [Unwrap] removes one layer and no more: on an error under
    [layers e] nested values that implement [Error], every result of fewer
    than [layers e] calls of [Unwrap] still implements [Error]; after
    [layers e] calls the result does not, and further calls of [Unwrap]
    leave it as it is. *)
Theorem Unwrap_one_layer (e : error) :
  (forall k, (k < layers e)%nat ->
     implements_Error (Nat.iter k Unwrap e) = true)
  /\ implements_Error (Nat.iter (layers e) Unwrap e) = false
  /\ Unwrap (Nat.iter (layers e) Unwrap e) = Nat.iter (layers e) Unwrap e.
Proof.
  assert (H0 : implements_Error (Nat.iter (layers e) Unwrap e) = false).
  { apply layers_O. now apply Unwrap_iter_layers. }
  split; [| split].
  - intros k Hk. now apply (Unwrap_iter_traced (layers e)).
  - exact H0.
  - destruct (Nat.iter (layers e) Unwrap e); try discriminate; reflexivity.
Qed.

Lemma Unwrap_one_layer_witness :
  implements_Error
    (Unwrap (CustomError (Ptr example_traced) nil_slice)) = true
  /\ Unwrap (Unwrap (CustomError (Ptr example_traced) nil_slice))
     = Foreign "boom".
Proof.
  destruct (Unwrap_one_layer (CustomError (Ptr example_traced) nil_slice))
    as [H1 _].
  split; [apply (H1 1%nat); simpl; lia | reflexivity].
Defined.

(** ** How many layers the constructors build *)

(** X9.  [Wrap] adds a layer only where there is none: whatever it returns
    on a non-nil error has as many nested values that implement [Error] as
    the error had, and one if it had none; on nil it has none.  So a chain
    of calls of [Wrap] never nests a trace in a trace, where every call of
    [CustomError] adds a layer. *)
Theorem Wrap_layers (fuel : nat) (rt : Runtime) (c : Z)
    (e : error) (m : string) (t : error) :
  Wrap fuel rt c e m = Ok t ->
  layers t = (if is_nil e then O else Nat.max 1 (layers e))
  /\ (forall fuel' rt' c' m' t',
        Wrap fuel' rt' c' t m' = Ok t' -> layers t' = layers t)
  /\ (forall fs, layers (CustomError t fs) = S (layers t)).
Proof.
  intros H.
  assert (Ht : layers t = (if is_nil e then O else Nat.max 1 (layers e))).
  { unfold Wrap in H. destruct e as [| text | text st o | x]; cbn in H.
    - now injection H as <-.
    - unfold trace in H. destruct (capture fuel rt c 2); cbn in H;
        try discriminate. now injection H as <-.
    - injection H as <-. cbn. lia.
    - injection H as <-. cbn. lia. }
  split; [exact Ht | split].
  - intros fuel' rt' c' m' t' H'. unfold Wrap in H'.
    destruct t as [| text | text st o | x]; cbn in H'.
    + now injection H' as <-.
    + exfalso. destruct e; cbn in Ht; try discriminate; lia.
    + now injection H' as <-.
    + now injection H' as <-.
  - reflexivity.
Qed.

Lemma Wrap_layers_witness :
  layers (Ptr example_traced) = 1%nat
  /\ layers (CustomError (Ptr example_traced) nil_slice) = 2%nat.
Proof.
  destruct (Wrap_layers O empty_runtime 0 (Ptr example_traced) "again"
              (Ptr example_traced) eq_refl) as [H1 [_ H3]].
  split; [exact H1 | exact (H3 nil_slice)].
Defined.

(** ** The two frames [trace] hides *)

Lemma frame_at_push (f : CallerResult) (rt : Runtime) (k : Z) :
  0 <= k -> frame_at (push_frame f rt) (k + 1) = frame_at rt k.
Proof.
  intros Hk. unfold frame_at. cbn [push_frame Caller FuncForPC].
  destruct (Z.eqb_spec (k + 1) 0) as [?|_]; [lia |].
  now replace (k + 1 - 1) with k by lia.
Qed.

Lemma stack_frames_push (f : CallerResult) (rt : Runtime) (n : nat) :
  forall k, 0 <= k ->
    stack_frames (push_frame f rt) n (k + 1) = stack_frames rt n k.
Proof.
  induction n as [|n IH]; intros k Hk; cbn [stack_frames].
  - reflexivity.
  - rewrite frame_at_push by exact Hk. rewrite IH by lia.
    cbn [push_frame Caller].
    destruct (Z.eqb_spec (k + 1) 0) as [?|_]; [lia |].
    now replace (k + 1 - 1) with k by lia.
Qed.

Lemma stack_frames_push_head (f : CallerResult) (rt : Runtime) (n : nat) :
  ok f = true ->
  stack_frames (push_frame f rt) (S n) 0 = frame_of rt f :: stack_frames rt n 0.
Proof.
  intros Hok. cbn [stack_frames].
  change (Caller (push_frame f rt) 0) with f. rewrite Hok.
  f_equal. apply (stack_frames_push f rt n 0). lia.
Qed.

Lemma stack_ends_push (f : CallerResult) (rt : Runtime) (k k' d : Z) :
  0 <= k -> int_min <= k' -> k' <= k + 1 -> d < int_max ->
  stack_ends rt k d = true ->
  stack_ends (push_frame f rt) k' (d + 1) = true.
Proof.
  unfold stack_ends. intros Hk Hmin Hk' Hd H.
  apply andb_prop in H as [H Hno]. apply andb_prop in H as [H _].
  apply andb_prop in H as [_ Hle]. apply Z.leb_le in Hle.
  cbn [push_frame Caller].
  destruct (Z.eqb_spec (d + 1) 0) as [?|_]; [lia |].
  replace (d + 1 - 1) with d by lia. rewrite Hno.
  repeat (apply andb_true_intro; split); try reflexivity;
    apply Z.leb_le; lia.
Qed.

(** X10.  [trace] is always called with a skip of 2, which hides its own
    entry and the entry of the function that called it.  Called by [Wrap]
    from a caller whose stack is [u], the trace is the caller's stack from
    its own entry on.  [Wrapf] calls [Wrap], so the two entries hidden are
    those of [trace] and [Wrap], and the trace starts with the entry of
    [Wrapf] itself, before the caller's.  The capacity hint is one that is
    not negative and that the allocator serves. *)
Theorem trace_hides_two_entries (any : Type)
    (Sprintf : string -> list any -> string)
    (fuel : nat) (u : Runtime) (c d : Z)
    (in_trace in_Wrap in_Wrapf : CallerResult)
    (e : error) (m format : string) (a : list any) :
  is_nil e = false ->
  implements_Error e = false ->
  0 <= c ->
  allocatable u c = true ->
  stack_ends u 0 d = true ->
  d + 3 <= int_max ->
  (Z.to_nat d + 1 < fuel)%nat ->
  ok in_Wrapf = true ->
  (exists t,
     Wrap fuel (push_frame in_trace (push_frame in_Wrap u)) c e m = Ok t
     /\ frame_sequence t = stack_frames u (Z.to_nat d) 0)
  /\ (exists t,
        Wrapf any Sprintf fuel
          (push_frame in_trace (push_frame in_Wrap (push_frame in_Wrapf u)))
          c e format a = Ok t
        /\ frame_sequence t
           = frame_of u in_Wrapf :: stack_frames u (Z.to_nat d) 0).
Proof.
  intros Hn Hi Hc Ha Hend Hmax Hfuel Hok.
  assert (Hd : 0 <= d).
  { unfold stack_ends in Hend.
    apply andb_prop in Hend as [Hend _]. apply andb_prop in Hend as [Hend _].
    apply andb_prop in Hend as [_ Hle]. now apply Z.leb_le in Hle. }
  assert (Hmin : int_min <= 0) by (unfold int_min; lia).
  split.
  - pose proof (stack_ends_push in_Wrap u 0 1 d (Z.le_refl 0)
                  ltac:(unfold int_min; lia) ltac:(lia) ltac:(lia) Hend) as H1.
    pose proof (stack_ends_push in_trace _ 1 2 (d + 1) ltac:(lia)
                  ltac:(unfold int_min; lia) ltac:(lia) ltac:(lia) H1) as H2.
    replace (d + 1 + 1) with (d + 2) in H2 by lia.
    destruct (trace_fresh (push_frame in_trace (push_frame in_Wrap u))
                fuel c (d + 2) e m Hc Ha H2)
      as [t [Ht [_ [_ [Hfs _]]]]]; [lia |].
    exists t. rewrite (Wrap_untraced fuel _ c e m Hn Hi).
    split; [exact Ht |]. rewrite Hfs.
    replace (d + 2 - 2) with d by lia.
    change 2 with (1 + 1). rewrite stack_frames_push by lia.
    change 1 with (0 + 1). now rewrite stack_frames_push by lia.
  - pose proof (stack_ends_push in_Wrapf u 0 0 d (Z.le_refl 0)
                  Hmin ltac:(lia) ltac:(lia) Hend) as H0.
    pose proof (stack_ends_push in_Wrap _ 0 1 (d + 1) (Z.le_refl 0)
                  ltac:(unfold int_min; lia) ltac:(lia) ltac:(lia) H0) as H1.
    pose proof (stack_ends_push in_trace _ 1 2 (d + 1 + 1) ltac:(lia)
                  ltac:(unfold int_min; lia) ltac:(lia) ltac:(lia) H1) as H2.
    replace (d + 1 + 1 + 1) with (d + 3) in H2 by lia.
    destruct (trace_fresh
                (push_frame in_trace
                   (push_frame in_Wrap (push_frame in_Wrapf u)))
                fuel c (d + 3) e (Sprintf format a) Hc Ha H2)
      as [t [Ht [_ [_ [Hfs _]]]]]; [lia |].
    exists t. unfold Wrapf.
    rewrite (Wrap_untraced fuel _ c e (Sprintf format a) Hn Hi).
    split; [exact Ht |]. rewrite Hfs.
    replace (Z.to_nat (d + 3 - 2)) with (S (Z.to_nat d)) by lia.
    change 2 with (1 + 1). rewrite stack_frames_push by lia.
    change 1 with (0 + 1). rewrite stack_frames_push by lia.
    now apply stack_frames_push_head.
Qed.

Lemma trace_hides_two_entries_witness :
  (exists t,
     Wrap 7 (push_frame {| pc := 1; file := "error.go"; line := 144; ok := true |}
               (push_frame {| pc := 2; file := "error.go"; line := 66; ok := true |}
                  example_runtime))
          20 (Foreign "boom") "ctx" = Ok t
     /\ frame_sequence t = stack_frames example_runtime 5 0)
  /\ (exists t,
        Wrapf string plain_Sprintf 7
          (push_frame {| pc := 1; file := "error.go"; line := 144; ok := true |}
             (push_frame {| pc := 2; file := "error.go"; line := 66; ok := true |}
                (push_frame
                   {| pc := 3; file := "error.go"; line := 70; ok := true |}
                   example_runtime)))
          20 (Foreign "boom") "ctx" [] = Ok t
        /\ frame_sequence t
           = frame_of example_runtime
               {| pc := 3; file := "error.go"; line := 70; ok := true |}
             :: stack_frames example_runtime 5 0).
Proof.
  apply (trace_hides_two_entries string plain_Sprintf 7 example_runtime 20 5);
    [reflexivity | reflexivity | lia | reflexivity | reflexivity
    | unfold int_max; lia | simpl; lia | reflexivity].
Defined.

(** ** What the capacity hint cannot change *)




